(** * Net-Rewire: packet classifier and tunnel-server framing

    A shallow embedding of [pkt_parse] (macos/NetRewirePacketTunnel/pktparse.c)
    and of the per-client session [handle_client]
    (ubuntu/tunnel_server.c). *)

From Stdlib Require Import ZArith NArith List Bool Lia.
Import ListNotations.
Open Scope Z_scope.

(** ** Bytes *)

(** A byte of the input buffer, as an integer in [0, 255]. *)
Definition byte := Z.

(** ** Bounds-checked reads

    [pkt_parse] reads from [buf], of which the caller guarantees [len]
    bytes.  Every read is an offset into [buf]; in this total embedding an
    offset at or past [len] is the error branch [OutOfBounds]. *)

Inductive parse_error := OutOfBounds (off : Z).

Inductive res (A : Type) :=
| Ok (a : A)
| Err (e : parse_error).
Arguments Ok {A} a.
Arguments Err {A} e.

Definition bind {A B} (m : res A) (k : A -> res B) : res B :=
  match m with
  | Ok a => k a
  | Err e => Err e
  end.

Notation "x <- m ;; k" := (bind m (fun x => k))
  (at level 61, m at next level, right associativity).

(** [buf[off]], only within the [len] bytes the caller handed in. *)
Definition rd (buf : list byte) (len : N) (off : Z) : res byte :=
  if (0 <=? off) && (off <? Z.of_N len)
  then Ok (nth (Z.to_nat off) buf 0)
  else Err (OutOfBounds off).

(** [n] consecutive bytes at [off], as they are in memory: a multi-byte
    field copied without byte-order conversion. *)
Fixpoint rd_bytes (buf : list byte) (len : N) (off : Z) (n : nat)
  : res (list byte) :=
  match n with
  | O => Ok []
  | S n' => b <- rd buf len off ;;
            bs <- rd_bytes buf len (off + 1) n' ;;
            Ok (b :: bs)
  end.

(** ** [struct pkt_info] (pktparse.h)

    The address and port fields are [uint32_t]/[uint16_t] copied from the
    wire; they are kept as their bytes in memory order. *)
Record pkt_info := mk_pkt_info {
  is_ipv4 : Z;
  is_tcp : Z;
  ip_src : list byte;
  ip_dst : list byte;
  tcp_src : list byte;
  tcp_dst : list byte;
  ip_header_len : Z;
  tcp_header_len : Z
}.

(** [memset(info, 0, sizeof( *info))] *)
Definition pkt_info_zero : pkt_info :=
  mk_pkt_info 0 0 [0;0;0;0] [0;0;0;0] [0;0] [0;0] 0 0.

(** [sizeof(struct ip)] and [sizeof(struct tcphdr)] *)
Definition sizeof_ip : Z := 20.
Definition sizeof_tcphdr : Z := 20.
Definition IPPROTO_TCP : Z := 6.

(** Layout of [struct ip]: [ip_v] is the high nibble of byte 0 and
    [ip_hl] the low one, [ip_p] is byte 9, [ip_src] bytes 12..15 and
    [ip_dst] bytes 16..19.  Layout of [struct tcphdr]: [th_sport] bytes
    0..1, [th_dport] bytes 2..3, [th_off] the high nibble of byte 12. *)
Definition ip_v_of (b0 : byte) : Z := Z.land (Z.shiftr b0 4) 15.
Definition ip_hl_of (b0 : byte) : Z := Z.land b0 15.
Definition th_off_of (b12 : byte) : Z := Z.land (Z.shiftr b12 4) 15.

(** [int pkt_parse(const uint8_t *buf, size_t len, struct pkt_info *info)]:
    the return value and the final contents of [*info]. *)
Definition pkt_parse (buf : list byte) (len : N) : res (Z * pkt_info) :=
  let info := pkt_info_zero in
  if Z.of_N len <? sizeof_ip then Ok (0, info) else
  b0 <- rd buf len 0 ;;
  if negb (ip_v_of b0 =? 4) then Ok (0, info) else
  let ihl := ip_hl_of b0 * 4 in
  if Z.of_N len <? ihl then Ok (0, info) else
  src <- rd_bytes buf len 12 4 ;;
  dst <- rd_bytes buf len 16 4 ;;
  let info := mk_pkt_info 1 0 src dst [0;0] [0;0] ihl 0 in
  p <- rd buf len 9 ;;
  if negb (p =? IPPROTO_TCP) then Ok (1, info) else
  if Z.of_N len <? ihl + sizeof_tcphdr then Ok (1, info) else
  off <- rd buf len (ihl + 12) ;;
  sport <- rd_bytes buf len ihl 2 ;;
  dport <- rd_bytes buf len (ihl + 2) 2 ;;
  Ok (1, mk_pkt_info 1 1 src dst sport dport ihl (th_off_of off * 4)).

(** ** Tunnel server: the client socket as a stream of receive segments

    [recv(fd, buf, n, 0)] on the non-blocking client socket returns at most
    the bytes that are available at that moment.  The socket is modelled as
    the sequence of what successive receive calls can observe: a segment of
    available bytes (a receive takes a prefix of it, the rest stays
    available), a would-block condition, a hard error, and end of stream
    once the sequence is exhausted. *)

Inductive seg :=
| Seg (bs : list byte)
| SAgain
| SFail.

Inductive recv_res :=
| RData (bs : list byte)   (* [recv] returned [length bs > 0] *)
| REof                     (* [recv] returned 0 *)
| RAgain                   (* -1 with [EAGAIN]/[EWOULDBLOCK] *)
| RFail.                   (* -1 with any other [errno] *)

Fixpoint recv (n : nat) (s : list seg) : recv_res * list seg :=
  match s with
  | [] => (REof, [])
  | Seg [] :: r => recv n r
  | Seg bs :: r =>
      if (length bs <=? n)%nat then (RData bs, r)
      else (RData (firstn n bs), Seg (skipn n bs) :: r)
  | SAgain :: r => (RAgain, r)
  | SFail :: r => (RFail, r)
  end.

(** [ntohl] applied to the four bytes of a [uint32_t] as they lie in
    memory: the network-order (big-endian) value. *)
Definition ntohl_bytes (m : list byte) : Z :=
  nth 0 m 0 * 16777216 + nth 1 m 0 * 65536 + nth 2 m 0 * 256 + nth 3 m 0.

(** The bytes in memory of [htonl(v)]: big-endian on every host. *)
Definition htonl_bytes (v : Z) : list byte :=
  [ (v / 16777216) mod 256; (v / 65536) mod 256; (v / 256) mod 256; v mod 256 ].

(** The stack variable [uint32_t packet_length] after
    [recv(client_fd, &packet_length, 4, 0)] returned the bytes [got]: they
    overwrite its first bytes, the others keep their prior contents
    [stale]. *)
Definition prefix_mem (stale got : list byte) : list byte :=
  got ++ skipn (length got) stale.

(** Outcome of the client-to-TUN half of one loop iteration. *)
Inductive break_reason :=
| PeerClosed        (* prefix [recv] returned 0 *)
| PrefixRecvFailed  (* prefix [recv] returned -1, whatever [errno] *)
| SelectFailed
| SendFailed
| TunReadFailed
| Shutdown.         (* [running] observed as 0 *)

Inductive client_out :=
| CBreak (r : break_reason)
| CContinue                 (* [continue]: next loop iteration *)
| CWrote (p : list byte).   (* [write(tun_fd, packet_buffer, bytes_read)] *)

(** Lines 153-177 of [handle_client], from the 4 bytes in [packet_length]
    on. *)
Definition client_frame (mem : list byte) (s : list seg)
  : client_out * list seg :=
  let packet_length := ntohl_bytes mem in
  if (65535 <? packet_length) || (packet_length =? 0) then (CContinue, s) else
  match recv (Z.to_nat packet_length) s with
  | (RData p, s') => (CWrote p, s')
  | (_, s') => (CContinue, s')
  end.

(** Lines 139-177 of [handle_client]: the socket side of the loop. *)
Definition client_step (stale : list byte) (s : list seg)
  : client_out * list seg :=
  match recv 4 s with
  | (REof, s') => (CBreak PeerClosed, s')
  | (RAgain, s') | (RFail, s') => (CBreak PrefixRecvFailed, s')
  | (RData got, s') => client_frame (prefix_mem stale got) s'
  end.

(** ** The TUN side *)

Inductive tun_rd :=
| TunPkt (p : list byte)   (* [read] returned [length p > 0] bytes *)
| TunAgain
| TunFail.

(** Result of one [send(client_fd, buf, n, 0)]. *)
Inductive send_res :=
| SendOk                                (* returned [n]: all bytes sent *)
| SendShort (k : nat) (errno_again : bool)
    (* returned [k] bytes; [k < n] is the case of interest.  [errno] is not
       set by such a call: [errno_again] tells whether the value it holds
       from an earlier call is [EAGAIN]/[EWOULDBLOCK] *)
| SendAgain                             (* -1 with [EAGAIN]/[EWOULDBLOCK] *)
| SendFail.                             (* -1 with any other [errno] *)

(** Everything the forwarding loop reads from and writes to. *)
Record io_state := mk_io {
  cstream : list seg;              (* client socket, incoming *)
  tunq : list tun_rd;              (* successive [read(tun_fd, ...)] results *)
  sendq : list send_res;           (* successive [send(client_fd, ...)] results *)
  tun_log : list (list byte);      (* packets written to the TUN device *)
  sock_log : list (list byte)      (* buffers sent to the client *)
}.

Definition next_tun (q : list tun_rd) : tun_rd * list tun_rd :=
  match q with
  | [] => (TunAgain, [])
  | x :: r => (x, r)
  end.

Definition next_send (q : list send_res) : send_res * list send_res :=
  match q with
  | [] => (SendOk, [])
  | x :: r => (x, r)
  end.

(** The frame [tun_step] sends for a packet [p]: the 4-byte prefix
    [htonl(bytes_read)], then the payload. *)
Definition frame_sends (p : list byte) : list (list byte) :=
  [htonl_bytes (Z.of_nat (length p)); p].

(** Lines 181-211 of [handle_client].  [sock_log] receives the bytes
    each [send] put on the wire. *)
Definition tun_step (io : io_state) : option break_reason * io_state :=
  let (r, tq) := next_tun (tunq io) in
  let io := mk_io (cstream io) tq (sendq io) (tun_log io) (sock_log io) in
  match r with
  | TunAgain => (None, io)
  | TunFail => (Some TunReadFailed, io)
  | TunPkt p =>
      let pre := htonl_bytes (Z.of_nat (length p)) in
      let (s1, sq1) := next_send (sendq io) in
      (* [bytes_sent == 4]: send the packet data (lines 197-205); any
         [bytes_sent >= 0] counts as success there *)
      let data (log1 : list (list byte)) :=
        let (s2, sq2) := next_send sq1 in
        match s2 with
        | SendFail => (Some SendFailed, mk_io (cstream io) tq sq2 (tun_log io) log1)
        | SendAgain => (None, mk_io (cstream io) tq sq2 (tun_log io) log1)
        | SendOk => (None, mk_io (cstream io) tq sq2 (tun_log io) (log1 ++ [p]))
        | SendShort k _ =>
            (None, mk_io (cstream io) tq sq2 (tun_log io) (log1 ++ [firstn k p]))
        end in
      match s1 with
      | SendFail => (Some SendFailed, mk_io (cstream io) tq sq1 (tun_log io) (sock_log io))
      | SendAgain => (None, mk_io (cstream io) tq sq1 (tun_log io) (sock_log io))
      | SendOk => data (sock_log io ++ [pre])
      | SendShort k again =>
          if (4 <=? k)%nat then data (sock_log io ++ [pre]) else
          (* [bytes_sent != 4]: the [errno] test of line 191 *)
          (if again then None else Some SendFailed,
           mk_io (cstream io) tq sq1 (tun_log io) (sock_log io ++ [firstn k pre]))
      end
  end.

(** ** The forwarding loop (lines 120-212) *)

(** What [select] reports in one iteration. *)
Inductive select_res :=
| SelFail (eintr : bool)       (* -1; with [EINTR] the fd sets are left as set *)
| SelTimeout                   (* 0 *)
| SelReady (client_rdy tun_rdy : bool).

(** One iteration as the environment drives it: the value of [running]
    tested by [while (running)], the result of [select], and the bytes the
    stack slot of [uint32_t packet_length] holds when [recv] is called on
    it.  That variable is declared afresh in every iteration and never
    initialised, so its prior contents are not fixed by the source: a
    compiled program may, for instance, find there what the previous
    iteration left after [ntohl]. *)
Record tick := mk_tick { t_running : bool; t_select : select_res; t_slot : list byte }.

Inductive loop_result :=
| Exited (r : break_reason) (io : io_state)   (* the loop was left *)
| Running (io : io_state).                    (* still looping *)

Definition with_cstream (io : io_state) (s : list seg) : io_state :=
  mk_io s (tunq io) (sendq io) (tun_log io) (sock_log io).

Definition with_tun_write (io : io_state) (p : list byte) : io_state :=
  mk_io (cstream io) (tunq io) (sendq io) (tun_log io ++ [p]) (sock_log io).

Fixpoint forward_loop (ticks : list tick) (io : io_state) : loop_result :=
  match ticks with
  | [] => Running io
  | t :: ts =>
      if negb (t_running t) then Exited Shutdown io else
      let iter (c u : bool) :=
        let k io :=
          if u then
            match tun_step io with
            | (Some r, io') => Exited r io'
            | (None, io') => forward_loop ts io'
            end
          else forward_loop ts io in
        if c then
          match client_step (t_slot t) (cstream io) with
          | (CBreak r, s') => Exited r (with_cstream io s')
          | (CContinue, s') => forward_loop ts (with_cstream io s')
          | (CWrote p, s') => k (with_tun_write (with_cstream io s') p)
          end
        else k io in
      match t_select t with
      | SelFail false => Exited SelectFailed io
      | SelFail true => iter true true
      | SelTimeout => forward_loop ts io
      | SelReady c u => iter c u
      end
  end.

(** ** Per-client session resources *)

(** What [handle_client] holds: the client socket, the TUN descriptor and
    the heap-allocated [client_info_t]. *)
Record session_res := mk_res {
  sock_open : bool;
  tun_open : bool;
  client_live : bool
}.

Definition close_tun (r : session_res) : session_res :=
  mk_res (sock_open r) false (client_live r).
Definition close_sock (r : session_res) : session_res :=
  mk_res false (tun_open r) (client_live r).
Definition free_client (r : session_res) : session_res :=
  mk_res (sock_open r) (tun_open r) false.

(** Results of the OS calls made while setting up the device:
    [open("/dev/net/tun")], [ioctl(TUNSETIFF)] and the two [system]
    commands of [configure_tun_device]. *)
Record dev_env := mk_dev {
  open_ok : bool;
  ioctl_ok : bool;
  addr_ok : bool;
  link_ok : bool
}.

(** [create_tun_device]: success flag and the resources afterwards. *)
Definition create_tun_device (d : dev_env) (r : session_res)
  : bool * session_res :=
  if negb (open_ok d) then (false, r) else
  let r := mk_res (sock_open r) true (client_live r) in
  if negb (ioctl_ok d) then (false, close_tun r) else (true, r).

(** [configure_tun_device]: the second command only runs if the first
    succeeded. *)
Definition configure_tun_device (d : dev_env) : bool :=
  if negb (addr_ok d) then false else link_ok d.

Inductive session_exit :=
| CreateFailed
| ConfigureFailed
| LoopExit (r : break_reason).

(** [handle_client]: [None] while the forwarding loop has not exited. *)
Definition handle_client (d : dev_env) (ticks : list tick) (io : io_state)
  : option (session_exit * session_res) :=
  let r0 := mk_res true false true in
  let (ok, r1) := create_tun_device d r0 in
  if negb ok then Some (CreateFailed, free_client (close_sock r1)) else
  if negb (configure_tun_device d)
  then Some (ConfigureFailed, free_client (close_sock (close_tun r1))) else
  match forward_loop ticks io with
  | Running _ => None
  | Exited r _ => Some (LoopExit r, free_client (close_sock (close_tun r1)))
  end.

(** ** Test vectors of pktparse_test.c *)

(** [test_packet]: IPv4/TCP SYN from port 1234 to port 25. *)
Definition test_packet : list byte :=
  [ 0x45; 0x00; 0x00; 0x3c; 0x00; 0x01; 0x00; 0x00; 0x40; 0x06; 0x00; 0x00;
    0xc0; 0xa8; 0x01; 0x01;
    0xc0; 0xa8; 0x01; 0x02;
    0x04; 0xd2; 0x00; 0x19;
    0x00; 0x00; 0x00; 0x00; 0x00; 0x00; 0x00; 0x00;
    0x50; 0x02; 0x20; 0x00; 0x00; 0x00; 0x00; 0x00 ].

(** [udp_packet] of [test_non_tcp_packet]. *)
Definition udp_packet : list byte :=
  [ 0x45; 0x00; 0x00; 0x3c; 0x00; 0x01; 0x00; 0x00; 0x40; 0x11; 0x00; 0x00;
    0xc0; 0xa8; 0x01; 0x01; 0xc0; 0xa8; 0x01; 0x02;
    0x00; 0x00; 0x00; 0x00; 0x00; 0x00; 0x00; 0x00 ].

(** The bytes in memory of [htons(v)]. *)
Definition htons_bytes (v : Z) : list byte := [ (v / 256) mod 256; v mod 256 ].

(** The bytes a receive sequence carries, in order. *)
Fixpoint stream_bytes (s : list seg) : list byte :=
  match s with
  | [] => []
  | Seg bs :: r => bs ++ stream_bytes r
  | _ :: r => stream_bytes r
  end.

(** Every element is a byte value. *)
Definition bytes_ok (l : list byte) : Prop := Forall (fun b => 0 <= b < 256) l.

(** The I/O state a loop run ends in, whether it exited or not. *)
Definition loop_io (lr : loop_result) : io_state :=
  match lr with
  | Exited _ io => io
  | Running io => io
  end.

(** ** [main]: the accept loop (lines 277-315) *)

Inductive accept_res :=
| AccOk (fd : Z)           (* [accept] returned a connected socket *)
| AccFail (eintr : bool).  (* -1; [EINTR] or another [errno] *)

(** One iteration of [while (running)]: the value of [running], the result
    of [accept], and (when a socket was accepted) whether [malloc] and
    [pthread_create] succeed. *)
Record atick := mk_atick {
  a_running : bool;
  a_accept : accept_res;
  a_malloc_ok : bool;
  a_thread_ok : bool
}.

(** What [main] owns and what it has handed over: the listening socket,
    the sockets given (with their [client_info_t]) to a detached
    [handle_client] thread, the accepted sockets it closed itself, and the
    [client_info_t] blocks it freed itself. *)
Record srv_state := mk_srv {
  srv_open : bool;
  spawned : list Z;
  closed_by_main : list Z;
  freed_by_main : list Z
}.

Inductive accept_result :=
| AccExited (st : srv_state)    (* [running] was 0 *)
| AccRunning (st : srv_state).

Fixpoint accept_loop (ts : list atick) (st : srv_state) : accept_result :=
  match ts with
  | [] => AccRunning st
  | t :: ts' =>
      if negb (a_running t) then AccExited st else
      match a_accept t with
      | AccFail _ => accept_loop ts' st
      | AccOk fd =>
          if negb (a_malloc_ok t) then
            accept_loop ts'
              (mk_srv (srv_open st) (spawned st) (closed_by_main st ++ [fd])
                      (freed_by_main st))
          else if negb (a_thread_ok t) then
            accept_loop ts'
              (mk_srv (srv_open st) (spawned st) (closed_by_main st ++ [fd])
                      (freed_by_main st ++ [fd]))
          else
            accept_loop ts'
              (mk_srv (srv_open st) (spawned st ++ [fd]) (closed_by_main st)
                      (freed_by_main st))
      end
  end.

(** Results of the set-up calls of [main]. *)
Record srv_setup := mk_setup {
  socket_ok : bool;
  sockopt_ok : bool;
  bind_ok : bool;
  listen_ok : bool
}.

(** [main]: its exit status and final state, [None] while the accept loop
    is still running. *)
Definition main_model (su : srv_setup) (ts : list atick)
  : option (Z * srv_state) :=
  if negb (socket_ok su) then Some (1, mk_srv false [] [] []) else
  let st0 := mk_srv true [] [] [] in
  let fail := Some (1, mk_srv false [] [] []) in
  if negb (sockopt_ok su) then fail else
  if negb (bind_ok su) then fail else
  if negb (listen_ok su) then fail else
  match accept_loop ts st0 with
  | AccRunning _ => None
  | AccExited st =>
      Some (0, mk_srv false (spawned st) (closed_by_main st) (freed_by_main st))
  end.

(** The accepted sockets [main] hands to a session thread, and those it
    closes itself. *)
Fixpoint handed_over (ts : list atick) : list Z :=
  match ts with
  | [] => []
  | t :: ts' =>
      match a_accept t with
      | AccOk fd => if a_malloc_ok t && a_thread_ok t
                    then fd :: handed_over ts' else handed_over ts'
      | AccFail _ => handed_over ts'
      end
  end.

Fixpoint refused (ts : list atick) : list Z :=
  match ts with
  | [] => []
  | t :: ts' =>
      match a_accept t with
      | AccOk fd => if a_malloc_ok t && a_thread_ok t
                    then refused ts' else fd :: refused ts'
      | AccFail _ => refused ts'
      end
  end.

(** The [client_info_t] blocks [main] frees itself: those of accepted
    sockets whose thread could not be created. *)
Fixpoint freed_after (ts : list atick) : list Z :=
  match ts with
  | [] => []
  | t :: ts' =>
      match a_accept t with
      | AccOk fd => if a_malloc_ok t && negb (a_thread_ok t)
                    then fd :: freed_after ts' else freed_after ts'
      | AccFail _ => freed_after ts'
      end
  end.

(** ** Lemmas on the bounds-checked reads *)

Lemma rd_in_bounds buf len off :
  0 <= off < Z.of_N len -> rd buf len off = Ok (nth (Z.to_nat off) buf 0).
Proof.
  intros [H0 H1]. unfold rd.
  rewrite (proj2 (Z.leb_le 0 off) H0), (proj2 (Z.ltb_lt off _) H1).
  reflexivity.
Qed.

Lemma rd_bytes_in_bounds buf len n :
  forall off, 0 <= off -> off + Z.of_nat n <= Z.of_N len ->
  exists bs, rd_bytes buf len off n = Ok bs /\ length bs = n.
Proof.
  induction n as [|n IH]; intros off H0 H1.
  - exists []. split; reflexivity.
  - cbn [rd_bytes]. rewrite rd_in_bounds by lia. cbn [bind].
    destruct (IH (off + 1)) as [bs [-> Hl]]; [lia | lia |].
    exists (nth (Z.to_nat off) buf 0 :: bs). split; [reflexivity | cbn; lia].
Qed.

Lemma land_15 b : Z.land b 15 = b mod 16.
Proof. exact (Z.land_ones b 4 ltac:(lia)). Qed.

Lemma ip_hl_of_range b : 0 <= ip_hl_of b <= 15.
Proof.
  unfold ip_hl_of. rewrite land_15.
  pose proof (Z.mod_pos_bound b 16). lia.
Qed.

Lemma th_off_of_range b : 0 <= th_off_of b <= 15.
Proof.
  unfold th_off_of. rewrite land_15.
  pose proof (Z.mod_pos_bound (Z.shiftr b 4) 16). lia.
Qed.

(** Walks [pkt_parse buf len] through its tests, discharging every read
    with its bounds; one goal is left per [return]. *)
Ltac parse_walk buf len :=
  unfold pkt_parse;
  let E1 := fresh "E" in
  destruct (Z.of_N len <? sizeof_ip) eqn:E1;
  [ | apply Z.ltb_ge in E1; unfold sizeof_ip in E1;
      rewrite (rd_in_bounds buf len 0) by lia; cbn [bind];
      pose proof (ip_hl_of_range (nth (Z.to_nat 0) buf 0));
      let E2 := fresh "E" in
      destruct (negb (ip_v_of (nth (Z.to_nat 0) buf 0) =? 4)) eqn:E2;
      [ | let E3 := fresh "E" in
          destruct (Z.of_N len <? ip_hl_of (nth (Z.to_nat 0) buf 0) * 4) eqn:E3;
          [ | apply Z.ltb_ge in E3;
              let src := fresh "src" in let dst := fresh "dst" in
              destruct (rd_bytes_in_bounds buf len 4 12) as [src [Hsrc ?]]; [lia | lia | rewrite Hsrc];
              destruct (rd_bytes_in_bounds buf len 4 16) as [dst [Hdst ?]]; [lia | lia | rewrite Hdst];
              cbn [bind];
              rewrite (rd_in_bounds buf len 9) by lia; cbn [bind];
              let E4 := fresh "E" in
              destruct (negb (nth (Z.to_nat 9) buf 0 =? IPPROTO_TCP)) eqn:E4;
              [ | let E5 := fresh "E" in
                  destruct (Z.of_N len <? ip_hl_of (nth (Z.to_nat 0) buf 0) * 4
                                          + sizeof_tcphdr) eqn:E5;
                  [ | apply Z.ltb_ge in E5; unfold sizeof_tcphdr in E5;
                      rewrite (rd_in_bounds buf len
                                 (ip_hl_of (nth (Z.to_nat 0) buf 0) * 4 + 12)) by lia;
                      cbn [bind];
                      let sp := fresh "sport" in let dp := fresh "dport" in
                      destruct (rd_bytes_in_bounds buf len 2
                                  (ip_hl_of (nth (Z.to_nat 0) buf 0) * 4))
                        as [sp [Hsp ?]]; [lia | lia | rewrite Hsp];
                      destruct (rd_bytes_in_bounds buf len 2
                                  (ip_hl_of (nth (Z.to_nat 0) buf 0) * 4 + 2))
                        as [dp [Hdp ?]]; [lia | lia | rewrite Hdp];
                      cbn [bind] ] ] ] ] ].

(** Turns the boolean tests recorded by [parse_walk] into propositions. *)
Ltac bool_facts :=
  repeat match goal with
  | H : (_ <? _) = true |- _ => apply Z.ltb_lt in H
  | H : (_ <? _) = false |- _ => apply Z.ltb_ge in H
  | H : negb (_ =? _) = true |- _ => apply negb_true_iff, Z.eqb_neq in H
  | H : negb (_ =? _) = false |- _ => apply negb_false_iff, Z.eqb_eq in H
  end;
  unfold sizeof_ip, sizeof_tcphdr, IPPROTO_TCP in *;
  change (Z.to_nat 0) with 0%nat in *; change (Z.to_nat 9) with 9%nat in *.

(** ** Packet classifier *)

(** C1: for every buffer and every length, every byte [pkt_parse] reads
    lies below [len]: each read follows the length test that covers it, so
    the out-of-bounds branch of the embedding is never taken. *)
Theorem pkt_parse_reads_in_bounds :
  forall (buf : list byte) (len : N) (e : parse_error),
  pkt_parse buf len <> Err e.
Proof.
  intros buf len e. parse_walk buf len; discriminate.
Qed.

(** C5: [pkt_parse] returns 0 (with [*info] zeroed) when [len < 20], when
    the version field is not 4, or when [len] is below the declared IP
    header length [ip_hl * 4]. *)
Theorem pkt_parse_rejects :
  forall (buf : list byte) (len : N),
  let b0 := nth 0 buf 0 in
  Z.of_N len < 20 \/ ip_v_of b0 <> 4 \/ Z.of_N len < ip_hl_of b0 * 4 ->
  pkt_parse buf len = Ok (0, pkt_info_zero).
Proof.
  intros buf len b0 H. subst b0.
  parse_walk buf len; try reflexivity; exfalso;
    apply Z.ltb_ge in E; unfold sizeof_ip in E;
    apply negb_false_iff, Z.eqb_eq in E0; cbn in E0, E1 |- *; lia.
Qed.

(** C6: a buffer that passes the IPv4 tests and either does not carry TCP
    or has fewer than 20 bytes after the IP header is classified with
    success, [is_ipv4 = 1] and [is_tcp = 0]. *)
Theorem pkt_parse_non_tcp_success :
  forall (buf : list byte) (len : N),
  let b0 := nth 0 buf 0 in
  20 <= Z.of_N len -> ip_v_of b0 = 4 -> ip_hl_of b0 * 4 <= Z.of_N len ->
  nth 9 buf 0 <> IPPROTO_TCP \/ Z.of_N len - ip_hl_of b0 * 4 < 20 ->
  exists info, pkt_parse buf len = Ok (1, info) /\
               is_ipv4 info = 1 /\ is_tcp info = 0.
Proof.
  intros buf len b0 Hl Hv Hh Hc. subst b0.
  parse_walk buf len;
    try (eexists; split; [reflexivity | split; reflexivity]);
    exfalso; bool_facts; cbn in *; lia.
Qed.

(** C7: for every 40-byte buffer holding an IPv4 header with version 4,
    header length 5 and protocol TCP, followed by a TCP header with data
    offset 5, source port 1234 and destination port 25 (the port fields as
    the network-order bytes of [htons]), whatever its other bytes,
    [pkt_parse] succeeds with both header lengths 20, the ports as those
    network-order bytes, and the addresses as the wire bytes 12..15 and
    16..19. *)
Theorem pkt_parse_ipv4_tcp_40 :
  forall buf : list byte,
  length buf = 40%nat ->
  ip_v_of (nth 0 buf 0) = 4 -> ip_hl_of (nth 0 buf 0) = 5 ->
  nth 9 buf 0 = IPPROTO_TCP ->
  th_off_of (nth 32 buf 0) = 5 ->
  firstn 2 (skipn 20 buf) = htons_bytes 1234 ->
  firstn 2 (skipn 22 buf) = htons_bytes 25 ->
  exists info,
    pkt_parse buf (N.of_nat (length buf)) = Ok (1, info) /\
    is_ipv4 info = 1 /\ is_tcp info = 1 /\
    ip_header_len info = 20 /\ tcp_header_len info = 20 /\
    tcp_src info = htons_bytes 1234 /\ tcp_dst info = htons_bytes 25 /\
    ip_src info = firstn 4 (skipn 12 buf) /\ ip_dst info = firstn 4 (skipn 16 buf).
Proof.
  intros buf Hl Hv Hh Hp Ho Hs Hd.
  do 40 (destruct buf as [| ? buf]; [discriminate |]).
  destruct buf; [| discriminate]. clear Hl.
  cbn [nth firstn skipn] in *.
  unfold pkt_parse, rd. cbv -[ip_v_of ip_hl_of th_off_of htons_bytes].
  rewrite Hv. cbv -[ip_hl_of th_off_of htons_bytes].
  rewrite Hh. cbv -[th_off_of htons_bytes].
  rewrite Hp. cbv -[th_off_of htons_bytes]. rewrite Ho, <- Hs, <- Hd.
  eexists. repeat split.
Qed.

(** C9: every result of [pkt_parse] with [is_tcp] set has [is_ipv4]
    set. *)
Theorem pkt_parse_tcp_implies_ipv4 :
  forall (buf : list byte) (len : N) (r : Z) (info : pkt_info),
  pkt_parse buf len = Ok (r, info) -> is_tcp info <> 0 -> is_ipv4 info <> 0.
Proof.
  intros buf len r info.
  parse_walk buf len; intros Hp; injection Hp as <- <-; cbn; congruence.
Qed.

(** C10: the header-length fields are not checked against their lower
    bound 5.  A buffer of at least 20 bytes with version 4 and [ip_hl < 5]
    is classified with success and [ip_header_len = ip_hl * 4 < 20]; and
    for every buffer classified as TCP, [tcp_header_len] is [th_off * 4]
    for whatever value the data-offset nibble holds (0 to 15). *)
Theorem pkt_parse_header_len_unchecked :
  (forall (buf : list byte) (len : N),
   let b0 := nth 0 buf 0 in
   20 <= Z.of_N len -> ip_v_of b0 = 4 -> ip_hl_of b0 < 5 ->
   exists info, pkt_parse buf len = Ok (1, info) /\
                ip_header_len info = ip_hl_of b0 * 4 /\ ip_header_len info < 20) /\
  (forall (buf : list byte) (len : N),
   let b0 := nth 0 buf 0 in
   let ihl := ip_hl_of b0 * 4 in
   20 <= Z.of_N len -> ip_v_of b0 = 4 -> nth 9 buf 0 = IPPROTO_TCP ->
   ihl + 20 <= Z.of_N len ->
   exists info, pkt_parse buf len = Ok (1, info) /\ is_tcp info = 1 /\
                tcp_header_len info = th_off_of (nth (Z.to_nat (ihl + 12)) buf 0) * 4).
Proof.
  split.
  - intros buf len b0 Hl Hv Hh. subst b0.
    parse_walk buf len;
      try (eexists; split; [reflexivity | cbn; lia]);
      exfalso; bool_facts; lia.
  - intros buf len b0 ihl Hl Hv Hp Ht. subst b0 ihl.
    parse_walk buf len;
      try (eexists; split; [reflexivity | split; reflexivity]);
      exfalso; bool_facts; lia.
Qed.

(** ** Witnesses for the classifier theorems *)

(** [test_short_packet]: the first 10 bytes of [test_packet]. *)
Lemma pkt_parse_rejects_witness :
  Z.of_N 10 < 20 /\ pkt_parse test_packet 10 = Ok (0, pkt_info_zero).
Proof.
  split; [lia |].
  apply (pkt_parse_rejects test_packet 10). left. lia.
Defined.

(** [test_non_tcp_packet]: protocol 17 (UDP). *)
Lemma pkt_parse_non_tcp_success_witness :
  exists info, pkt_parse udp_packet 28 = Ok (1, info) /\
               is_ipv4 info = 1 /\ is_tcp info = 0.
Proof.
  apply (pkt_parse_non_tcp_success udp_packet 28);
    [vm_compute; discriminate | reflexivity | vm_compute; discriminate
    | left; vm_compute; discriminate].
Defined.

(** The packet of [test_valid_tcp_packet] in pktparse_test.c. *)
Lemma pkt_parse_ipv4_tcp_40_witness :
  exists info,
    pkt_parse test_packet (N.of_nat (length test_packet)) = Ok (1, info) /\
    is_ipv4 info = 1 /\ is_tcp info = 1 /\
    ip_header_len info = 20 /\ tcp_header_len info = 20 /\
    tcp_src info = htons_bytes 1234 /\ tcp_dst info = htons_bytes 25 /\
    ip_src info = firstn 4 (skipn 12 test_packet) /\
    ip_dst info = firstn 4 (skipn 16 test_packet).
Proof. apply pkt_parse_ipv4_tcp_40; reflexivity. Defined.

Lemma pkt_parse_tcp_implies_ipv4_witness :
  exists info, pkt_parse test_packet 40 = Ok (1, info) /\ is_ipv4 info <> 0.
Proof.
  eexists. split; [vm_compute; reflexivity |].
  apply (pkt_parse_tcp_implies_ipv4 test_packet 40 1);
    [vm_compute; reflexivity | vm_compute; discriminate].
Defined.

(** [test_packet] with [ip_hl = 0] ([0x40]), and [test_packet] with
    [th_off = 0] (byte 32 set to [0x00]). *)
Definition test_packet_hl0 : list byte := 0x40 :: tl test_packet.
Definition test_packet_off0 : list byte :=
  firstn 32 test_packet ++ 0x00 :: skipn 33 test_packet.

Lemma pkt_parse_header_len_unchecked_witness :
  (exists info, pkt_parse test_packet_hl0 20 = Ok (1, info) /\
                ip_header_len info = 0 /\ ip_header_len info < 20) /\
  (exists info, pkt_parse test_packet_off0 40 = Ok (1, info) /\ is_tcp info = 1 /\
                tcp_header_len info = 0).
Proof.
  split.
  - apply (proj1 pkt_parse_header_len_unchecked test_packet_hl0 20%N);
      vm_compute; first [discriminate | reflexivity].
  - apply (proj2 pkt_parse_header_len_unchecked test_packet_off0 40%N);
      vm_compute; first [discriminate | reflexivity].
Defined.

(** ** Framing: the specification's decoder

    Section 4.3 of the specification describes a decoder that reads
    exactly 4 prefix bytes and then exactly the declared number of payload
    bytes, looping over partial reads.  [read_exact] and
    [decode_frame_spec] follow those words; they are compared with
    [client_step] below. *)

Fixpoint read_exact (n : nat) (s : list seg) : option (list byte * list seg) :=
  match n with
  | O => Some ([], s)
  | S _ =>
      match s with
      | [] => None
      | Seg bs :: r =>
          if (n <=? length bs)%nat then Some (firstn n bs, Seg (skipn n bs) :: r)
          else match read_exact (n - length bs) r with
               | Some (more, r') => Some (bs ++ more, r')
               | None => None
               end
      | SAgain :: r => read_exact n r
      | SFail :: _ => None
      end
  end.

Definition decode_frame_spec (s : list seg) : option (list byte * list seg) :=
  match read_exact 4 s with
  | None => None
  | Some (h, s1) =>
      let n := ntohl_bytes h in
      if (65535 <? n) || (n =? 0) then None else read_exact (Z.to_nat n) s1
  end.

(** ** Lemmas on framing *)

Lemma ntohl_htonl_small v :
  0 <= v <= 65535 -> ntohl_bytes (htonl_bytes v) = v.
Proof.
  intros Hv. unfold ntohl_bytes, htonl_bytes. cbn [nth].
  rewrite (Z.div_small v 16777216), (Z.div_small v 65536) by lia.
  rewrite Z.mod_0_l by lia.
  rewrite (Z.mod_small (v / 256) 256).
  - pose proof (Z.div_mod v 256 ltac:(lia)). lia.
  - split; [apply Z.div_pos; lia | apply Z.div_lt_upper_bound; lia].
Qed.

Lemma ntohl_bytes_app h x :
  length h = 4%nat -> ntohl_bytes (h ++ x) = ntohl_bytes h.
Proof.
  intros Hh. unfold ntohl_bytes.
  rewrite !app_nth1 by lia. reflexivity.
Qed.

Lemma prefix_mem_full stale h :
  length h = 4%nat -> ntohl_bytes (prefix_mem stale h) = ntohl_bytes h.
Proof. intros Hh. unfold prefix_mem. apply ntohl_bytes_app, Hh. Qed.

Lemma recv_whole_seg n bs r :
  bs <> [] -> (length bs <= n)%nat -> recv n (Seg bs :: r) = (RData bs, r).
Proof.
  intros Hne Hl. destruct bs as [|b bs]; [congruence |].
  cbn [recv]. rewrite (proj2 (Nat.leb_le _ _) Hl). reflexivity.
Qed.

Lemma recv_part_seg n bs r :
  (n < length bs)%nat ->
  recv n (Seg bs :: r) = (RData (firstn n bs), Seg (skipn n bs) :: r).
Proof.
  intros Hl. destruct bs as [|b bs]; [cbn in Hl; lia |].
  cbn [recv]. destruct (Nat.leb_spec (length (b :: bs)) n); [lia | reflexivity].
Qed.

Lemma htonl_bytes_length v : length (htonl_bytes v) = 4%nat.
Proof. reflexivity. Qed.

(** The frame sent by [tun_step] for a packet read from the TUN device is
    [frame_sends p]. *)
Lemma tun_step_sends_frame io p tq sq :
  tunq io = TunPkt p :: tq -> sendq io = SendOk :: SendOk :: sq ->
  tun_step io = (None, mk_io (cstream io) tq sq (tun_log io)
                             (sock_log io ++ frame_sends p)).
Proof.
  intros Ht Hs. unfold tun_step. rewrite Ht. cbn [next_tun]. rewrite Hs.
  cbn. rewrite <- app_assoc. reflexivity.
Qed.

(** ** Framing theorems *)

Lemma client_step_frame :
  forall (p : list byte) (stale : list byte) (rest : list seg),
  1 <= Z.of_nat (length p) <= 65535 ->
  client_step stale (map Seg (frame_sends p) ++ rest) = (CWrote p, rest) /\
  client_step stale (Seg (concat (frame_sends p)) :: rest) = (CWrote p, rest).
Proof.
  intros p stale rest Hp.
  assert (Hne : p <> []) by (destruct p; cbn in Hp; [lia | discriminate]).
  set (h := htonl_bytes (Z.of_nat (length p))).
  assert (Hh : length h = 4%nat) by reflexivity.
  assert (Hn : ntohl_bytes h = Z.of_nat (length p))
    by (apply ntohl_htonl_small; lia).
  assert (Hframe : forall s,
    client_frame (prefix_mem stale h) (Seg p :: s) = (CWrote p, s)).
  { intros s. unfold client_frame. rewrite prefix_mem_full, Hn by exact Hh.
    replace ((65535 <? Z.of_nat (length p)) || (Z.of_nat (length p) =? 0))
      with false
      by (symmetry; apply orb_false_iff; split; [apply Z.ltb_ge | apply Z.eqb_neq]; lia).
    rewrite Nat2Z.id, recv_whole_seg by (auto || lia). reflexivity. }
  split.
  - unfold client_step. cbn [frame_sends map app].
    fold h. rewrite recv_whole_seg by (discriminate || (rewrite Hh; lia)).
    apply Hframe.
  - unfold client_step. cbn [frame_sends concat]. fold h. rewrite app_nil_r.
    rewrite recv_part_seg
      by (rewrite length_app, Hh; destruct p; cbn in *; [congruence | lia]).
    rewrite firstn_app, Hh, firstn_all2, Nat.sub_diag, firstn_O, app_nil_r by lia.
    rewrite skipn_app, Hh, skipn_all2, Nat.sub_diag, skipn_O by lia.
    apply Hframe.
Qed.

(** C3: round trip.  A payload [p] of 1 to 65535 bytes, framed as the
    TUN side sends it ([frame_sends p]: the [htonl] prefix, then the
    payload), is decoded by the socket side into exactly [p], whether the
    two sends arrive as two receive segments or as one. *)
Theorem frame_roundtrip :
  forall (p : list byte) (stale : list byte) (rest : list seg),
  1 <= Z.of_nat (length p) <= 65535 ->
  client_step stale (map Seg (frame_sends p) ++ rest) = (CWrote p, rest) /\
  client_step stale (Seg (concat (frame_sends p)) :: rest) = (CWrote p, rest).
Proof. exact client_step_frame. Qed.

(** A loop iteration in which [select] reports only the client socket
    readable, with [slot] in [packet_length] before its [recv]. *)
Definition client_tick (slot : list byte) : tick := mk_tick true (SelReady true false) slot.

(** C4: a prefix declaring length 0 or more than 65535 is dropped with
    [continue]: the loop does not exit, only the 4 prefix bytes are
    consumed, and the well-formed frame that follows on the same connection
    is decoded and written to the TUN device in the next iteration. *)
Theorem framing_error_keeps_connection :
  forall (hbad p : list byte) (rest : list seg) (io : io_state)
         (sl1 sl2 : list byte) (ts : list tick),
  length hbad = 4%nat ->
  ntohl_bytes hbad = 0 \/ 65535 < ntohl_bytes hbad ->
  1 <= Z.of_nat (length p) <= 65535 ->
  cstream io = Seg hbad :: map Seg (frame_sends p) ++ rest ->
  forward_loop (client_tick sl1 :: client_tick sl2 :: ts) io =
  forward_loop ts (with_tun_write (with_cstream io rest) p).
Proof.
  intros hbad p rest io sl1 sl2 ts Hl Hbad Hp Hs.
  cbn [forward_loop client_tick t_running t_select t_slot negb].
  rewrite Hs. unfold client_step at 1.
  assert (Hne : hbad <> []) by (destruct hbad; cbn in Hl; [lia | discriminate]).
  rewrite recv_whole_seg by (exact Hne || lia).
  unfold client_frame at 1. rewrite prefix_mem_full by exact Hl.
  replace ((65535 <? ntohl_bytes hbad) || (ntohl_bytes hbad =? 0)) with true
    by (symmetry; apply orb_true_iff; destruct Hbad;
        [right; apply Z.eqb_eq | left; apply Z.ltb_lt]; lia).
  cbn [cstream with_cstream].
  rewrite (proj1 (client_step_frame p sl2 rest Hp)).
  reflexivity.
Qed.

(** C2 (as the specification states it fails): with the frame
    [0 0 0 5 | 1 2 3 4 5] split across receive segments, the decoder of
    the specification recovers the payload, but [client_step] does not:
    split inside the prefix, it takes the 2 bytes received as the whole
    prefix (length 0, dropped); split inside the payload, it writes the 2
    bytes received to the TUN device. *)
Lemma client_step_no_loop_counterexample :
  decode_frame_spec [Seg [0; 0]; Seg [0; 5; 1; 2; 3; 4; 5]]
    = Some ([1; 2; 3; 4; 5], [Seg []]) /\
  client_step [0; 0; 0; 0] [Seg [0; 0]; Seg [0; 5; 1; 2; 3; 4; 5]]
    = (CContinue, [Seg [0; 5; 1; 2; 3; 4; 5]]) /\
  decode_frame_spec [Seg [0; 0; 0; 5; 1; 2]; Seg [3; 4; 5]]
    = Some ([1; 2; 3; 4; 5], [Seg []]) /\
  client_step [0; 0; 0; 0] [Seg [0; 0; 0; 5; 1; 2]; Seg [3; 4; 5]]
    = (CWrote [1; 2], [Seg [3; 4; 5]]).
Proof. repeat split; reflexivity. Qed.

(** C2, amended: the socket side makes one receive call for the prefix
    and, if the length is valid, one receive call for the payload.  A
    prefix receive that returns 1 to 3 bytes is not completed: the rest of
    the stream goes untouched to the length test and payload read.  A
    payload receive that returns [m] bytes, [1 <= m] below the declared
    length, writes just those [m] bytes; the missing payload bytes stay in
    the stream for the next iteration. *)
Theorem client_step_single_recv :
  (forall (stale h : list byte) (rest : list seg),
   (1 <= length h < 4)%nat ->
   client_step stale (Seg h :: rest) = client_frame (prefix_mem stale h) rest) /\
  (forall (stale h p : list byte) (rest : list seg),
   length h = 4%nat ->
   1 <= ntohl_bytes h <= 65535 ->
   1 <= Z.of_nat (length p) < ntohl_bytes h ->
   client_step stale (Seg h :: Seg p :: rest) = (CWrote p, rest)).
Proof.
  split.
  - intros stale h rest Hh. unfold client_step.
    rewrite recv_whole_seg by (lia || (destruct h; cbn in *; [lia | discriminate])).
    reflexivity.
  - intros stale h p rest Hh Hn Hp. unfold client_step.
    assert (Hne : h <> []) by (destruct h; cbn in Hh; [lia | discriminate]).
    rewrite recv_whole_seg by (exact Hne || lia).
    unfold client_frame. rewrite prefix_mem_full by exact Hh.
    replace ((65535 <? ntohl_bytes h) || (ntohl_bytes h =? 0)) with false
      by (symmetry; apply orb_false_iff; split; [apply Z.ltb_ge | apply Z.eqb_neq]; lia).
    rewrite recv_whole_seg; [reflexivity | | lia].
    destruct p; cbn in Hp; [lia | discriminate].
Qed.

(** ** Session resources *)

(** C8: whichever way [handle_client] returns (TUN creation failure,
    configuration failure, or any exit of the forwarding loop: select
    error, peer close, receive, send or TUN read failure, shutdown), the
    client socket and the TUN descriptor are closed and the
    [client_info_t] is freed. *)
Theorem handle_client_releases_all :
  forall (d : dev_env) (ticks : list tick) (io : io_state)
         (e : session_exit) (r : session_res),
  handle_client d ticks io = Some (e, r) ->
  sock_open r = false /\ tun_open r = false /\ client_live r = false.
Proof.
  intros d ticks io e r H. unfold handle_client, create_tun_device in H.
  destruct (open_ok d), (ioctl_ok d); cbn in H;
    try (injection H as _ <-; cbn; auto; fail).
  destruct (configure_tun_device d); cbn in H.
  - destruct (forward_loop ticks io); [injection H as _ <-; cbn; auto | discriminate].
  - injection H as _ <-. cbn. auto.
Qed.

(** ** Witnesses for the server theorems *)

Lemma frame_roundtrip_witness :
  client_step [0; 0; 0; 0] (map Seg (frame_sends [0x45; 0; 0; 20]) ++ [SAgain])
    = (CWrote [0x45; 0; 0; 20], [SAgain]) /\
  client_step [0; 0; 0; 0] (Seg (concat (frame_sends [0x45; 0; 0; 20])) :: [SAgain])
    = (CWrote [0x45; 0; 0; 20], [SAgain]).
Proof. apply frame_roundtrip. cbn. lia. Defined.

(** A session whose client first sends a zero-length prefix, then a frame
    carrying [1 2 3]. *)
Definition io_bad_then_good : io_state :=
  mk_io (Seg [0; 0; 0; 0] :: map Seg (frame_sends [1; 2; 3])) [] [] [] [].

Lemma framing_error_keeps_connection_witness :
  forward_loop [client_tick [0; 0; 0; 0]; client_tick [7; 7; 7; 7]] io_bad_then_good =
  Running (with_tun_write (with_cstream io_bad_then_good []) [1; 2; 3]).
Proof.
  apply (framing_error_keeps_connection [0; 0; 0; 0] [1; 2; 3] [] io_bad_then_good
           [0; 0; 0; 0] [7; 7; 7; 7] []).
  - reflexivity.
  - left. reflexivity.
  - cbn. lia.
  - reflexivity.
Defined.

Lemma client_step_single_recv_witness :
  client_step [0; 0; 0; 0] [Seg [0; 0]; Seg [0; 5; 1; 2; 3; 4; 5]]
    = client_frame [0; 0; 0; 0] [Seg [0; 5; 1; 2; 3; 4; 5]] /\
  client_step [0; 0; 0; 0] [Seg [0; 0; 0; 5]; Seg [1; 2]; Seg [3; 4; 5]]
    = (CWrote [1; 2], [Seg [3; 4; 5]]).
Proof.
  split.
  - apply (proj1 client_step_single_recv). cbn. lia.
  - apply (proj2 client_step_single_recv); cbn; lia.
Defined.

(** A session whose TUN device is created and configured, and whose
    client disconnects at once. *)
Lemma handle_client_releases_all_witness :
  handle_client (mk_dev true true true true) [client_tick [0; 0; 0; 0]]
                (mk_io [] [] [] [] [])
    = Some (LoopExit PeerClosed, mk_res false false false) /\
  sock_open (mk_res false false false) = false /\
  tun_open (mk_res false false false) = false /\
  client_live (mk_res false false false) = false.
Proof.
  split; [reflexivity |].
  apply (handle_client_releases_all (mk_dev true true true true) [client_tick [0; 0; 0; 0]]
           (mk_io [] [] [] [] []) (LoopExit PeerClosed)).
  reflexivity.
Defined.

(** * Further properties of the code *)

(** ** Classifier *)

(** Shape of every result of [pkt_parse]: either 0 with [*info] left as
    zeroed by [memset], or 1 with [is_ipv4] set, [len >= 20] and an IP
    header length in [0, 60] that fits in [len]; then either no TCP data
    ([is_tcp], ports and [tcp_header_len] still zero) or [is_tcp] set, the
    20-byte TCP header within [len] and [tcp_header_len] in [0, 60]. *)
Theorem pkt_parse_result_shape :
  forall (buf : list byte) (len : N) (r : Z) (info : pkt_info),
  pkt_parse buf len = Ok (r, info) ->
  (r = 0 /\ info = pkt_info_zero) \/
  (r = 1 /\ is_ipv4 info = 1 /\ 20 <= Z.of_N len /\
   0 <= ip_header_len info <= 60 /\ ip_header_len info <= Z.of_N len /\
   ((is_tcp info = 0 /\ tcp_src info = [0; 0] /\ tcp_dst info = [0; 0] /\
     tcp_header_len info = 0) \/
    (is_tcp info = 1 /\ ip_header_len info + 20 <= Z.of_N len /\
     0 <= tcp_header_len info <= 60))).
Proof.
  intros buf len r info.
  parse_walk buf len; intros Hp; injection Hp as <- <-;
    try (left; split; reflexivity);
    right; bool_facts; cbn;
    pose proof (th_off_of_range (nth (Z.to_nat (ip_hl_of (nth 0 buf 0) * 4 + 12)) buf 0));
    (split; [reflexivity |]); (split; [reflexivity |]);
    repeat (split; [lia |]);
    first [ solve [left; repeat split] | right; repeat split; lia ].
Qed.

(** Exactly when [pkt_parse] succeeds and exactly when it reports TCP:
    success iff [len >= 20], version 4 and [len >= ip_hl * 4]; TCP iff in
    addition the protocol byte is 6 and [len >= ip_hl * 4 + 20]. *)
Theorem pkt_parse_outcome_iff :
  forall (buf : list byte) (len : N),
  let b0 := nth 0 buf 0 in
  let ihl := ip_hl_of b0 * 4 in
  exists r info, pkt_parse buf len = Ok (r, info) /\
  (r = 1 <-> 20 <= Z.of_N len /\ ip_v_of b0 = 4 /\ ihl <= Z.of_N len) /\
  (is_tcp info = 1 <->
   20 <= Z.of_N len /\ ip_v_of b0 = 4 /\ ihl <= Z.of_N len /\
   nth 9 buf 0 = IPPROTO_TCP /\ ihl + 20 <= Z.of_N len).
Proof.
  intros buf len b0 ihl. subst b0 ihl.
  parse_walk buf len; do 2 eexists; (split; [reflexivity |]); bool_facts; cbn;
    repeat split; intros;
    repeat match goal with H : _ /\ _ |- _ => destruct H end;
    first [lia | discriminate | congruence].
Qed.

(** ** Socket side *)

Lemma recv_data_bytes n s bs s' :
  recv n s = (RData bs, s') -> stream_bytes s = bs ++ stream_bytes s'.
Proof.
  induction s as [| [b | |] r IH]; cbn [recv]; intros H; try discriminate.
  - destruct b as [| x b]; [apply IH, H |].
    destruct (Nat.leb_spec (length (x :: b)) n); injection H as <- <-.
    + reflexivity.
    + cbn [stream_bytes]. rewrite app_assoc, firstn_skipn. reflexivity.
Qed.

Lemma recv_data_length n s bs s' :
  recv n s = (RData bs, s') -> (1 <= n)%nat -> (1 <= length bs <= n)%nat.
Proof.
  induction s as [| [b | |] r IH]; cbn [recv]; intros H Hn; try discriminate.
  destruct b as [| x b]; [apply IH; assumption |].
  destruct (Nat.leb_spec (length (x :: b)) n); injection H as <- <-.
  - cbn in *. lia.
  - rewrite length_firstn. cbn in *. lia.
Qed.

Lemma recv_suffix n s :
  exists pre, stream_bytes s = pre ++ stream_bytes (snd (recv n s)).
Proof.
  induction s as [| [b | |] r IH]; cbn [recv].
  - exists []. reflexivity.
  - destruct b as [| x b]; [exact IH |].
    destruct (Nat.leb_spec (length (x :: b)) n); cbn [snd stream_bytes].
    + exists (x :: b). reflexivity.
    + exists (firstn n (x :: b)). rewrite app_assoc, firstn_skipn. reflexivity.
  - exists []. reflexivity.
  - exists []. reflexivity.
Qed.

Lemma client_step_suffix stale s :
  exists pre, stream_bytes s = pre ++ stream_bytes (snd (client_step stale s)).
Proof.
  unfold client_step. destruct (recv_suffix 4 s) as [pre1 H1].
  destruct (recv 4 s) as [[got | | |] s1]; cbn [snd] in *; try (exists pre1; exact H1).
  unfold client_frame.
  destruct (_ || _); [exists pre1; exact H1 |].
  destruct (recv_suffix (Z.to_nat (ntohl_bytes (prefix_mem stale got))) s1) as [pre2 H2].
  destruct (recv _ s1) as [[q | | |] s2]; cbn [snd] in *;
    exists (pre1 ++ pre2); rewrite H1, H2, app_assoc; reflexivity.
Qed.

Lemma bytes_ok_app l1 l2 : bytes_ok (l1 ++ l2) <-> bytes_ok l1 /\ bytes_ok l2.
Proof. unfold bytes_ok. apply Forall_app. Qed.

Lemma ntohl_bytes_nonneg m : bytes_ok m -> 0 <= ntohl_bytes m.
Proof.
  intros Hm. unfold ntohl_bytes.
  assert (Hn : forall i, 0 <= nth i m 0).
  { intros i. destruct (nth_in_or_default i m 0) as [Hi | ->]; [| lia].
    unfold bytes_ok in Hm. rewrite Forall_forall in Hm. apply Hm in Hi. lia. }
  pose proof (Hn 0%nat). pose proof (Hn 1%nat). pose proof (Hn 2%nat).
  pose proof (Hn 3%nat). lia.
Qed.

Lemma prefix_mem_ok stale got : bytes_ok stale -> bytes_ok got -> bytes_ok (prefix_mem stale got).
Proof.
  intros Hs Hg. unfold prefix_mem. apply bytes_ok_app. split; [exact Hg |].
  unfold bytes_ok in *. revert Hs. generalize (length got). induction stale as [| x r IH];
    intros [| k] Hs; cbn; auto. inversion Hs; subst. auto.
Qed.

(** What [client_step] writes to the TUN device: the bytes received right
    after the 1 to 4 prefix bytes, at least one and at most the declared
    length, itself at most 65535 (so [packet_buffer[65535]] is never
    overrun). *)
Lemma client_step_wrote stale s p s' :
  bytes_ok stale -> bytes_ok (stream_bytes s) ->
  client_step stale s = (CWrote p, s') ->
  exists got, (1 <= length got <= 4)%nat /\
    stream_bytes s = got ++ p ++ stream_bytes s' /\
    1 <= Z.of_nat (length p) <= ntohl_bytes (prefix_mem stale got) /\
    ntohl_bytes (prefix_mem stale got) <= 65535.
Proof.
  intros Hst Hs.
  unfold client_step. destruct (recv 4 s) as [[got | | |] s1] eqn:E1;
    try discriminate.
  unfold client_frame. intros H.
  destruct ((65535 <? ntohl_bytes (prefix_mem stale got)) ||
            (ntohl_bytes (prefix_mem stale got) =? 0)) eqn:Eb; [discriminate |].
  apply orb_false_iff in Eb as [Eb1 Eb2].
  apply Z.ltb_ge in Eb1. apply Z.eqb_neq in Eb2.
  destruct (recv (Z.to_nat (ntohl_bytes (prefix_mem stale got))) s1)
    as [[q | | |] s2] eqn:E2; try discriminate.
  injection H as <- <-.
  exists got.
  pose proof (recv_data_length _ _ _ _ E1 ltac:(lia)) as L1.
  rewrite (recv_data_bytes _ _ _ _ E1) in Hs.
  assert (Hn : 0 <= ntohl_bytes (prefix_mem stale got)).
  { apply ntohl_bytes_nonneg, prefix_mem_ok; [exact Hst |].
    apply bytes_ok_app in Hs. apply Hs. }
  pose proof (recv_data_length _ _ _ _ E2 ltac:(lia)) as L2.
  rewrite (recv_data_bytes _ _ _ _ E1), (recv_data_bytes _ _ _ _ E2).
  repeat split; lia.
Qed.

Lemma tun_step_keeps_tun_log io :
  tun_log (snd (tun_step io)) = tun_log io /\ cstream (snd (tun_step io)) = cstream io.
Proof.
  unfold tun_step.
  destruct (next_tun (tunq io)) as [[p | |] tq]; [| split; reflexivity ..].
  cbn -[next_send Nat.leb]. destruct (next_send (sendq io)) as [s1 sq1].
  destruct (next_send sq1) as [s2 sq2].
  destruct s1 as [| k e | |], s2; cbn -[Nat.leb];
    try destruct (4 <=? k)%nat; try destruct e; split; reflexivity.
Qed.

(** The forwarding loop only appends to what it wrote to the TUN device,
    and every packet it appends has 1 to 65535 bytes, whatever the slot of
    [packet_length] holds in each iteration. *)
Lemma forward_loop_tun_writes ts :
  Forall (fun t => bytes_ok (t_slot t)) ts ->
  forall io, bytes_ok (stream_bytes (cstream io)) ->
  exists added, tun_log (loop_io (forward_loop ts io)) = tun_log io ++ added /\
                Forall (fun p => 1 <= Z.of_nat (length p) <= 65535) added.
Proof.
  induction ts as [| t ts IH]; intros Hsl io Hs.
  - exists []. rewrite app_nil_r. split; [reflexivity | constructor].
  - inversion Hsl as [| ? ? Hst Hsl']; subst. specialize (IH Hsl').
    assert (Hk : forall io2 (u : bool),
      bytes_ok (stream_bytes (cstream io2)) ->
      exists added,
        tun_log (loop_io (if u then
                            match tun_step io2 with
                            | (Some r, io') => Exited r io'
                            | (None, io') => forward_loop ts io'
                            end
                          else forward_loop ts io2)) = tun_log io2 ++ added /\
        Forall (fun p => 1 <= Z.of_nat (length p) <= 65535) added).
    { intros io2 u H2. destruct u; [| apply IH; assumption].
      pose proof (tun_step_keeps_tun_log io2) as [T1 T2].
      destruct (tun_step io2) as [[r |] io3]; cbn [snd] in T1, T2.
      - exists []. cbn [loop_io]. rewrite T1, app_nil_r. split; [reflexivity | constructor].
      - destruct (IH io3) as [added [A B]]; [rewrite T2; assumption |].
        exists added. rewrite A, T1. split; [reflexivity | assumption]. }
    assert (Hc : forall u : bool, exists added,
      tun_log (loop_io
        (match client_step (t_slot t) (cstream io) with
         | (CBreak r, s') => Exited r (with_cstream io s')
         | (CContinue, s') => forward_loop ts (with_cstream io s')
         | (CWrote p, s') =>
             if u then
               match tun_step (with_tun_write (with_cstream io s') p) with
               | (Some r, io') => Exited r io'
               | (None, io') => forward_loop ts io'
               end
             else forward_loop ts (with_tun_write (with_cstream io s') p)
         end)) = tun_log io ++ added /\
      Forall (fun p => 1 <= Z.of_nat (length p) <= 65535) added).
    { intros u. destruct (client_step_suffix (t_slot t) (cstream io)) as [pre Hpre].
      destruct (client_step (t_slot t) (cstream io)) as [[r | | p] s'] eqn:Ec;
        cbn [snd] in Hpre;
        assert (Hs' : bytes_ok (stream_bytes s'))
          by (rewrite Hpre in Hs; apply bytes_ok_app in Hs; apply Hs).
      - exists []. cbn. rewrite app_nil_r. split; [reflexivity | constructor].
      - destruct (IH (with_cstream io s') Hs') as [added [A B]].
        exists added. split; [exact A | exact B].
      - destruct (client_step_wrote _ _ _ _ Hst Hs Ec) as [got [_ [_ [Hl1 Hl2]]]].
        destruct (Hk (with_tun_write (with_cstream io s') p) u Hs')
          as [added [A B]].
        exists (p :: added). split.
        + etransitivity; [exact A |]. cbn. rewrite <- app_assoc. reflexivity.
        + constructor; [lia | exact B]. }
    destruct t as [[|] sel sl]; cbn [forward_loop negb t_running t_select t_slot] in *.
    + destruct sel as [[|] | | [|] [|]].
      * exact (Hc true).
      * exists []. cbn. rewrite app_nil_r. split; [reflexivity | constructor].
      * apply IH; assumption.
      * exact (Hc true).
      * exact (Hc false).
      * exact (Hk io true Hs).
      * apply IH; assumption.
    + exists []. cbn. rewrite app_nil_r. split; [reflexivity | constructor].
Qed.

(** A sequence of well-formed frames, each arriving as the two sends of
    the TUN side, is written to the TUN device payload by payload, in
    order, one frame per loop iteration in which the socket is
    readable. *)
Lemma forward_loop_frames ps :
  forall io rest slots,
  Forall (fun p => 1 <= Z.of_nat (length p) <= 65535) ps ->
  length slots = length ps ->
  cstream io = flat_map (fun p => map Seg (frame_sends p)) ps ++ rest ->
  forward_loop (map client_tick slots) io =
  Running (mk_io rest (tunq io) (sendq io) (tun_log io ++ ps) (sock_log io)).
Proof.
  induction ps as [| p ps IH]; intros io rest slots Hok Hl Hs.
  - destruct slots; [| discriminate]. destruct io; cbn in *. subst.
    rewrite app_nil_r. reflexivity.
  - destruct slots as [| sl slots]; [discriminate |]. cbn in Hl.
    inversion Hok as [| ? ? Hp Hps]; subst.
    cbn [map forward_loop client_tick t_running t_select t_slot negb].
    rewrite Hs. cbn [flat_map]. rewrite <- app_assoc.
    rewrite (proj1 (client_step_frame p sl _ Hp)).
    rewrite (IH (with_tun_write (with_cstream io
               (flat_map (fun p => map Seg (frame_sends p)) ps ++ rest)) p)
               rest slots Hps ltac:(lia) eq_refl).
    cbn. rewrite <- app_assoc. reflexivity.
Qed.

Lemma accept_loop_running ts :
  forall st, Forall (fun t => a_running t = true) ts ->
  accept_loop ts st =
  AccRunning (mk_srv (srv_open st) (spawned st ++ handed_over ts)
                     (closed_by_main st ++ refused ts)
                     (freed_by_main st ++ freed_after ts)).
Proof.
  induction ts as [| t ts IH]; intros st Hr.
  - destruct st. cbn. rewrite !app_nil_r. reflexivity.
  - inversion Hr as [| ? ? Ht Hts]; subst.
    cbn [accept_loop handed_over refused freed_after]. rewrite Ht. cbn [negb].
    destruct (a_accept t) as [fd | e].
    + destruct (a_malloc_ok t), (a_thread_ok t); cbn [negb andb];
        rewrite IH by exact Hts; cbn; rewrite <- ?app_assoc; reflexivity.
    + rewrite IH by exact Hts. reflexivity.
Qed.

(** ** Extra theorems: socket side *)

(** [client_step] writes to the TUN device only the bytes that follow the
    1 to 4 prefix bytes on the wire: at least one, at most the declared
    length, which is at most 65535, so [packet_buffer[65535]] is never
    overrun. *)
Theorem client_step_write_bounds :
  forall (stale0 : list byte) (s s' : list seg) (p : list byte),
  bytes_ok stale0 -> bytes_ok (stream_bytes s) ->
  client_step stale0 s = (CWrote p, s') ->
  exists got, (1 <= length got <= 4)%nat /\
    stream_bytes s = got ++ p ++ stream_bytes s' /\
    1 <= Z.of_nat (length p) <= ntohl_bytes (prefix_mem stale0 got) /\
    ntohl_bytes (prefix_mem stale0 got) <= 65535.
Proof. intros stale0 s s' p. apply client_step_wrote. Qed.

(** Over any run of the forwarding loop, the packets written to the TUN
    device are only appended, each of 1 to 65535 bytes, whatever the slot
    of [packet_length] holds in each iteration. *)
Theorem forward_loop_tun_write_bounds :
  forall (ts : list tick) (io : io_state),
  Forall (fun t => bytes_ok (t_slot t)) ts -> bytes_ok (stream_bytes (cstream io)) ->
  exists added, tun_log (loop_io (forward_loop ts io)) = tun_log io ++ added /\
                Forall (fun p => 1 <= Z.of_nat (length p) <= 65535) added.
Proof. intros ts io Hsl. apply forward_loop_tun_writes, Hsl. Qed.

(** Frames arriving back to back, each as the two sends of the TUN side,
    are written to the TUN device in order, one per readable iteration,
    and the loop stays open. *)
Theorem forward_loop_frames_in_order :
  forall (ps : list (list byte)) (io : io_state) (rest : list seg)
         (slots : list (list byte)),
  Forall (fun p => 1 <= Z.of_nat (length p) <= 65535) ps ->
  length slots = length ps ->
  cstream io = flat_map (fun p => map Seg (frame_sends p)) ps ++ rest ->
  forward_loop (map client_tick slots) io =
  Running (mk_io rest (tunq io) (sendq io) (tun_log io ++ ps) (sock_log io)).
Proof. intros ps. apply forward_loop_frames. Qed.

(** A prefix receive that fails, even with [EAGAIN]/[EWOULDBLOCK], ends the
    session; in particular a [select] interrupted by a signal (the fd sets
    left as they were set) is followed by a receive that finds no data and
    ends the loop. *)
Theorem prefix_recv_failure_ends_session :
  forall (io : io_state) (s : list seg) (ts : list tick) (u : bool) (sl : list byte),
  cstream io = SAgain :: s \/ cstream io = SFail :: s ->
  forward_loop (mk_tick true (SelFail true) sl :: ts) io
    = Exited PrefixRecvFailed (with_cstream io s) /\
  forward_loop (mk_tick true (SelReady true u) sl :: ts) io
    = Exited PrefixRecvFailed (with_cstream io s).
Proof.
  intros io s ts u sl H.
  cbn [forward_loop t_running t_select t_slot negb]. unfold client_step.
  destruct H as [H | H]; rewrite H; cbn [recv]; split; reflexivity.
Qed.

(** A valid prefix followed by end of stream: the payload receive returns
    0, which only leads to [continue]; the session ends on the next
    iteration, when the prefix receive returns 0.  Nothing is written to
    the TUN device. *)
Theorem eof_inside_frame_ends_next_iteration :
  forall (h : list byte) (io : io_state) (sl1 sl2 : list byte) (ts : list tick),
  length h = 4%nat -> 1 <= ntohl_bytes h <= 65535 -> cstream io = [Seg h] ->
  forward_loop [client_tick sl1] io = Running (with_cstream io []) /\
  forward_loop (client_tick sl1 :: client_tick sl2 :: ts) io
    = Exited PeerClosed (with_cstream io []).
Proof.
  intros h io sl1 sl2 ts Hl Hn Hs.
  assert (Hne : h <> []) by (destruct h; cbn in Hl; [lia | discriminate]).
  assert (Hstep : client_step sl1 (cstream io) = (CContinue, [])).
  { unfold client_step. rewrite Hs, recv_whole_seg by (exact Hne || lia).
    unfold client_frame. rewrite prefix_mem_full by exact Hl.
    replace ((65535 <? ntohl_bytes h) || (ntohl_bytes h =? 0)) with false
      by (symmetry; apply orb_false_iff; split; [apply Z.ltb_ge | apply Z.eqb_neq]; lia).
    reflexivity. }
  cbn [forward_loop client_tick t_running t_select t_slot negb].
  rewrite Hstep. split; reflexivity.
Qed.

(** ** Extra theorems: TUN side *)

(** A packet read from the TUN device while both sends succeed leaves the
    loop running and is sent to the client as one frame, which the socket
    side of a peer decodes back into the same packet. *)
Theorem tun_packet_forwarded_as_frame :
  forall (io : io_state) (p : list byte) (tq : list tun_rd) (sq : list send_res)
         (ts : list tick) (sl stale0 : list byte) (rest : list seg),
  tunq io = TunPkt p :: tq -> sendq io = SendOk :: SendOk :: sq ->
  1 <= Z.of_nat (length p) <= 65535 ->
  forward_loop (mk_tick true (SelReady false true) sl :: ts) io =
  forward_loop ts (mk_io (cstream io) tq sq (tun_log io) (sock_log io ++ frame_sends p)) /\
  client_step stale0 (map Seg (frame_sends p) ++ rest) = (CWrote p, rest).
Proof.
  intros io p tq sq ts sl stale0 rest Ht Hs Hp. split.
  - cbn [forward_loop t_running t_select negb].
    rewrite (tun_step_sends_frame io p tq sq Ht Hs). reflexivity.
  - exact (proj1 (client_step_frame p stale0 rest Hp)).
Qed.

(** How each [send] outcome ends the TUN-to-client half.  A prefix send
    that would block sends nothing and drops the packet.  A prefix send
    that puts only [k < 4] bytes on the wire leaves those bytes with the
    client and drops the packet; whether the session goes on depends on
    the [errno] left by an earlier call.  A payload send that would block
    after a full prefix leaves the 4 prefix bytes alone on the wire; a
    short payload send leaves the prefix and the first [k] payload bytes,
    and the loop goes on.  A hard error on either send ends the session. *)
Theorem tun_send_failures :
  forall (io : io_state) (p : list byte) (tq : list tun_rd) (sq : list send_res),
  tunq io = TunPkt p :: tq ->
  let pre := htonl_bytes (Z.of_nat (length p)) in
  (sendq io = SendAgain :: sq ->
   tun_step io = (None, mk_io (cstream io) tq sq (tun_log io) (sock_log io))) /\
  (forall (k : nat) (again : bool), (k < 4)%nat -> sendq io = SendShort k again :: sq ->
   tun_step io = (if again then None else Some SendFailed,
                  mk_io (cstream io) tq sq (tun_log io) (sock_log io ++ [firstn k pre]))) /\
  (sendq io = SendOk :: SendAgain :: sq ->
   tun_step io = (None, mk_io (cstream io) tq sq (tun_log io) (sock_log io ++ [pre]))) /\
  (forall (k : nat) (again : bool), sendq io = SendOk :: SendShort k again :: sq ->
   tun_step io = (None, mk_io (cstream io) tq sq (tun_log io)
                              (sock_log io ++ [pre; firstn k p]))) /\
  (sendq io = SendFail :: sq \/ sendq io = SendOk :: SendFail :: sq ->
   fst (tun_step io) = Some SendFailed).
Proof.
  intros io p tq sq Ht pre. unfold tun_step. rewrite Ht. cbn [next_tun].
  repeat split.
  - intros Hs. rewrite Hs. reflexivity.
  - intros k again Hk Hs. rewrite Hs. cbn -[Nat.leb firstn].
    destruct (Nat.leb_spec 4 k); [lia | reflexivity].
  - intros Hs. rewrite Hs. reflexivity.
  - intros k again Hs. rewrite Hs. cbn. rewrite <- app_assoc. reflexivity.
  - intros [Hs | Hs]; rewrite Hs; reflexivity.
Qed.

(** ** Extra theorems: device set-up and session *)

(** [create_tun_device] holds the TUN descriptor afterwards exactly when it
    reports success, which needs both [open] and [ioctl] to succeed; on an
    [ioctl] failure it closes the descriptor it opened.  It touches nothing
    else. *)
Theorem create_tun_device_no_leak :
  forall (d : dev_env) (r : session_res),
  tun_open r = false ->
  fst (create_tun_device d r) = open_ok d && ioctl_ok d /\
  tun_open (snd (create_tun_device d r)) = open_ok d && ioctl_ok d /\
  sock_open (snd (create_tun_device d r)) = sock_open r /\
  client_live (snd (create_tun_device d r)) = client_live r.
Proof.
  intros d [so to cl] Hto. cbn in Hto. subst to. unfold create_tun_device.
  destruct (open_ok d), (ioctl_ok d); cbn; auto.
Qed.

(** How a session ends: with [CreateFailed] exactly when [open] or
    [ioctl] fails, with [ConfigureFailed] exactly when the device was
    created and one of the two configuration commands fails, and
    otherwise with the exit reason of the forwarding loop; every ending
    releases everything. *)
Theorem handle_client_outcome :
  forall (d : dev_env) (ticks : list tick) (io : io_state),
  handle_client d ticks io =
  if negb (open_ok d && ioctl_ok d) then Some (CreateFailed, mk_res false false false)
  else if negb (addr_ok d && link_ok d) then Some (ConfigureFailed, mk_res false false false)
  else match forward_loop ticks io with
       | Exited br _ => Some (LoopExit br, mk_res false false false)
       | Running _ => None
       end.
Proof.
  intros d ticks io. unfold handle_client, create_tun_device, configure_tun_device.
  destruct (open_ok d), (ioctl_ok d), (addr_ok d), (link_ok d); reflexivity.
Qed.

(** ** Extra theorems: [main] *)

(** While [running] stays 1, the accept loop never exits, whatever
    [accept], [malloc] or [pthread_create] return; every accepted socket
    is either handed to a detached session thread (with its
    [client_info_t]) or closed by [main] (after freeing the
    [client_info_t] when [malloc] had succeeded).  The loop exits at the
    first iteration that reads [running] as 0, with that account. *)
Theorem accept_loop_accounts_sockets :
  forall (ts : list atick) (st : srv_state),
  Forall (fun t => a_running t = true) ts ->
  let st' := mk_srv (srv_open st) (spawned st ++ handed_over ts)
                    (closed_by_main st ++ refused ts)
                    (freed_by_main st ++ freed_after ts) in
  accept_loop ts st = AccRunning st' /\
  (forall t ts2, a_running t = false -> accept_loop (ts ++ t :: ts2) st = AccExited st').
Proof.
  intros ts st Hr st'. split.
  - apply accept_loop_running, Hr.
  - intros t ts2 Ht. subst st'. revert st.
    induction ts as [| t0 ts IH]; intros st.
    + cbn. rewrite Ht. destruct st. cbn. rewrite !app_nil_r. reflexivity.
    + inversion Hr as [| ? ? Ht0 Hts]; subst.
      cbn [app accept_loop handed_over refused freed_after]. rewrite Ht0. cbn [negb].
      destruct (a_accept t0) as [fd | e].
      * destruct (a_malloc_ok t0), (a_thread_ok t0); cbn [negb andb];
          rewrite IH by exact Hts; cbn; rewrite <- ?app_assoc; reflexivity.
      * rewrite IH by exact Hts. reflexivity.
Qed.

(** [main] closes the listening socket on every return and returns 0
    exactly when [socket], [setsockopt], [bind] and [listen] all succeeded
    (it then returns after the accept loop exits); otherwise 1. *)
Theorem main_exit_status :
  forall (su : srv_setup) (ts : list atick) (code : Z) (st : srv_state),
  main_model su ts = Some (code, st) ->
  srv_open st = false /\ (code = 0 \/ code = 1) /\
  (code = 0 <-> socket_ok su && sockopt_ok su && bind_ok su && listen_ok su = true).
Proof.
  intros su ts code st H. unfold main_model in H.
  destruct (socket_ok su), (sockopt_ok su), (bind_ok su), (listen_ok su); cbn in H;
    try (injection H as <- <-; cbn; repeat split; auto; discriminate).
  destruct (accept_loop ts (mk_srv true [] [] [])); [| discriminate].
  injection H as <- <-. cbn. repeat split; auto.
Qed.

(** ** Witnesses for the extra theorems *)

Lemma pkt_parse_result_shape_witness :
  pkt_parse test_packet 40 = Ok (1, mk_pkt_info 1 1 [192; 168; 1; 1] [192; 168; 1; 2]
                                   [4; 210] [0; 25] 20 20) /\
  ((1 = 0 /\ mk_pkt_info 1 1 [192; 168; 1; 1] [192; 168; 1; 2] [4; 210] [0; 25] 20 20
             = pkt_info_zero) \/
   (1 = 1 /\ 1 = 1 /\ 20 <= Z.of_N 40 /\ 0 <= 20 <= 60 /\ 20 <= Z.of_N 40 /\
    ((1 = 0 /\ [4; 210] = [0; 0] /\ [0; 25] = [0; 0] /\ 20 = 0) \/
     (1 = 1 /\ 20 + 20 <= Z.of_N 40 /\ 0 <= 20 <= 60)))).
Proof.
  split; [vm_compute; reflexivity |].
  apply (pkt_parse_result_shape test_packet 40). vm_compute. reflexivity.
Defined.

(** The frame [0 0 0 3 | 7 8 9] in one segment. *)
Lemma client_step_write_bounds_witness :
  exists got, (1 <= length got <= 4)%nat /\
    stream_bytes [Seg [0; 0; 0; 3; 7; 8; 9]] = got ++ [7; 8; 9] ++ stream_bytes [] /\
    1 <= Z.of_nat (length [7; 8; 9]) <= ntohl_bytes (prefix_mem [0; 0; 0; 0] got) /\
    ntohl_bytes (prefix_mem [0; 0; 0; 0] got) <= 65535.
Proof.
  apply (client_step_write_bounds [0; 0; 0; 0] [Seg [0; 0; 0; 3; 7; 8; 9]] []);
    [repeat constructor; lia | repeat constructor; lia | reflexivity].
Defined.

(** A prefix receive of 2 bytes completed by what the slot of
    [packet_length] held before: [0 0 | 5 0] declares 1280 bytes, and the
    3 bytes available are written. *)
Definition io_short_prefix : io_state :=
  mk_io [Seg [0; 0]; Seg [9; 9; 9]] [] [] [] [].

Lemma forward_loop_tun_write_bounds_witness :
  exists added,
    tun_log (loop_io (forward_loop [client_tick [2; 1; 5; 0]] io_short_prefix))
      = tun_log io_short_prefix ++ added /\
    Forall (fun p => 1 <= Z.of_nat (length p) <= 65535) added.
Proof.
  apply forward_loop_tun_write_bounds; cbn; repeat constructor; lia.
Defined.

(** Two frames, [1 2 3] and [4], then a would-block. *)
Definition io_two_frames : io_state :=
  mk_io (flat_map (fun p => map Seg (frame_sends p)) [[1; 2; 3]; [4]] ++ [SAgain])
        [] [] [] [].

Lemma forward_loop_frames_in_order_witness :
  forward_loop (map client_tick [[0; 0; 0; 0]; [1; 2; 3; 4]]) io_two_frames =
  Running (mk_io [SAgain] [] [] [[1; 2; 3]; [4]] []).
Proof.
  apply (forward_loop_frames_in_order [[1; 2; 3]; [4]] io_two_frames [SAgain]
           [[0; 0; 0; 0]; [1; 2; 3; 4]]);
    [repeat constructor; cbn; lia | reflexivity | reflexivity].
Defined.

Lemma prefix_recv_failure_ends_session_witness :
  forward_loop [mk_tick true (SelFail true) [0; 0; 0; 0]] (mk_io [SAgain] [] [] [] [])
    = Exited PrefixRecvFailed (with_cstream (mk_io [SAgain] [] [] [] []) []) /\
  forward_loop [mk_tick true (SelReady true false) [0; 0; 0; 0]] (mk_io [SAgain] [] [] [] [])
    = Exited PrefixRecvFailed (with_cstream (mk_io [SAgain] [] [] [] []) []).
Proof. apply prefix_recv_failure_ends_session. left. reflexivity. Defined.

Lemma eof_inside_frame_ends_next_iteration_witness :
  forward_loop [client_tick [0; 0; 0; 0]] (mk_io [Seg [0; 0; 0; 9]] [] [] [] [])
    = Running (with_cstream (mk_io [Seg [0; 0; 0; 9]] [] [] [] []) []) /\
  forward_loop [client_tick [0; 0; 0; 0]; client_tick [0; 0; 0; 0]]
               (mk_io [Seg [0; 0; 0; 9]] [] [] [] [])
    = Exited PeerClosed (with_cstream (mk_io [Seg [0; 0; 0; 9]] [] [] [] []) []).
Proof.
  apply (eof_inside_frame_ends_next_iteration [0; 0; 0; 9]);
    [reflexivity | cbn; lia | reflexivity].
Defined.

Lemma tun_packet_forwarded_as_frame_witness :
  forward_loop [mk_tick true (SelReady false true) [0; 0; 0; 0]]
    (mk_io [] [TunPkt [0x45; 0; 0; 20]] [SendOk; SendOk] [] []) =
  forward_loop [] (mk_io [] [] [] [] ([] ++ frame_sends [0x45; 0; 0; 20])) /\
  client_step [0; 0; 0; 0] (map Seg (frame_sends [0x45; 0; 0; 20]) ++ [])
    = (CWrote [0x45; 0; 0; 20], []).
Proof.
  apply (tun_packet_forwarded_as_frame
           (mk_io [] [TunPkt [0x45; 0; 0; 20]] [SendOk; SendOk] [] []));
    [reflexivity | reflexivity | cbn; lia].
Defined.

(** A prefix send that puts 2 of the 4 bytes on the wire, with [errno]
    still [EAGAIN] from an earlier call: the session goes on. *)
Lemma tun_send_failures_witness :
  tun_step (mk_io [] [TunPkt [1]] [SendShort 2 true] [] [])
    = (None, mk_io [] [] [] [] ([] ++ [firstn 2 (htonl_bytes 1)])).
Proof.
  apply (proj1 (proj2 (tun_send_failures
           (mk_io [] [TunPkt [1]] [SendShort 2 true] [] []) [1] [] [] eq_refl)) 2%nat true);
    [lia | reflexivity].
Defined.

Lemma create_tun_device_no_leak_witness :
  fst (create_tun_device (mk_dev true false true true) (mk_res true false true)) = false /\
  tun_open (snd (create_tun_device (mk_dev true false true true) (mk_res true false true)))
    = false /\
  sock_open (snd (create_tun_device (mk_dev true false true true) (mk_res true false true)))
    = true /\
  client_live (snd (create_tun_device (mk_dev true false true true) (mk_res true false true)))
    = true.
Proof. apply (create_tun_device_no_leak (mk_dev true false true true)). reflexivity. Defined.

(** An accepted socket handed over, a failed [accept], an accepted socket
    whose thread cannot be created, then [running = 0]. *)
Definition atick_run (a : accept_res) (m t : bool) : atick := mk_atick true a m t.

Lemma accept_loop_accounts_sockets_witness :
  accept_loop [atick_run (AccOk 5) true true; atick_run (AccFail false) true true;
               atick_run (AccOk 6) true false; mk_atick false (AccFail true) true true]
              (mk_srv true [] [] [])
    = AccExited (mk_srv true [5] [6] [6]).
Proof.
  apply (proj2 (accept_loop_accounts_sockets
                  [atick_run (AccOk 5) true true; atick_run (AccFail false) true true;
                   atick_run (AccOk 6) true false] (mk_srv true [] [] [])
                  ltac:(repeat constructor)) (mk_atick false (AccFail true) true true) []).
  reflexivity.
Defined.

Lemma main_exit_status_witness :
  srv_open (mk_srv false [] [] []) = false /\ (1 = 0 \/ 1 = 1) /\
  (1 = 0 <-> false && true && true && true = true).
Proof.
  apply (main_exit_status (mk_setup false true true true) []). reflexivity.
Defined.
